(** * Message content resolver of the voice-assistant front-end

  A shallow embedding of the parsing and reconciliation logic of
  [src/components/session-view.tsx] (remote-fetch variant),
  [src/unnamed/part_000] (local-parse variant of the same component),
  [src/components/livekit/text-output-panel.tsx] and
  [src/hooks/useConnectionDetails.ts], together with the part of the
  JavaScript runtime these functions call: strings as sequences of UTF-16
  code units, regular expressions, [JSON.parse], [JSON.stringify],
  exceptions and timers. *)

From Stdlib Require Import List NArith ZArith QArith Qround Qabs Bool String Ascii Lia.
Import ListNotations.

Set Warnings "-register-all".
Local Open Scope list_scope.
Local Close Scope Q_scope.

(** ** JavaScript strings *)

Module Str.

(** A JavaScript string is a sequence of UTF-16 code units. *)
Definition jsstring := list N.

(** The string an ASCII literal denotes. *)
Fixpoint js (s : string) : jsstring :=
  match s with
  | EmptyString => []
  | String a s' => N_of_ascii a :: js s'
  end.

Arguments js _%_string.

(** The double quote U+0022. *)
Definition dq : jsstring := [34%N].

(** A literal in which the apostrophe stands for the double quote; it is
    used for literals that contain no apostrophe of their own. *)
Definition jsq (s : string) : jsstring :=
  map (fun c => if N.eqb c 39 then 34%N else c) (js s).

Arguments jsq _%_string.

Fixpoint eqb (a b : jsstring) : bool :=
  match a, b with
  | [], [] => true
  | x :: a', y :: b' => N.eqb x y && eqb a' b'
  | _, _ => false
  end.

(** [s.substring(i, j)] for [i <= j]. *)
Definition substring (i j : nat) (s : jsstring) : jsstring :=
  firstn (j - i) (skipn i s).

(** LineTerminator: LF, CR, LS, PS. *)
Definition is_line_terminator (c : N) : bool :=
  N.eqb c 10 || N.eqb c 13 || N.eqb c 8232 || N.eqb c 8233.

(** WhiteSpace or LineTerminator: what [\s] matches and [trim] strips. *)
Definition is_space (c : N) : bool :=
  N.eqb c 9 || N.eqb c 11 || N.eqb c 12 || N.eqb c 32 || N.eqb c 160
  || N.eqb c 5760 || (N.leb 8192 c && N.leb c 8202)
  || N.eqb c 8239 || N.eqb c 8287 || N.eqb c 12288 || N.eqb c 65279
  || is_line_terminator c.

Fixpoint trimStart (s : jsstring) : jsstring :=
  match s with
  | c :: s' => if is_space c then trimStart s' else s
  | [] => []
  end.

Definition trimEnd (s : jsstring) : jsstring := rev (trimStart (rev s)).

(** [s.trim()] *)
Definition trim (s : jsstring) : jsstring := trimEnd (trimStart s).

(** [s.startsWith(p)] *)
Fixpoint starts_with (p s : jsstring) : bool :=
  match p, s with
  | [], _ => true
  | x :: p', y :: s' => N.eqb x y && starts_with p' s'
  | _ :: _, [] => false
  end.

(** [hay.includes(needle)] *)
Fixpoint includes (needle hay : jsstring) : bool :=
  starts_with needle hay ||
  match hay with
  | [] => false
  | _ :: hay' => includes needle hay'
  end.

End Str.
Import Str.

(** ** Regular expressions

  The expressions of the source quantify single character classes only, so a
  pattern is a sequence of atoms; the matcher backtracks as the ECMAScript
  one does (greedy quantifiers try the longest run first, lazy ones the
  shortest). *)

Module Regex.

Inductive atom :=
| Char (c : N)                 (* a literal character *)
| Class (p : N -> bool)        (* one character of a class *)
| Star (p : N -> bool)         (* class*   greedy *)
| LazyStar (p : N -> bool)     (* class*?  lazy *)
| GroupStart (n : nat)         (* opening parenthesis of group n *)
| GroupEnd (n : nat)           (* closing parenthesis of group n *)
| Bol                          (* ^ *)
| Eol.                         (* $ *)

Definition regex := list atom.

(** class+ *)
Definition Plus (p : N -> bool) : regex := [Class p; Star p].

(** A literal run of characters. *)
Definition Lit (s : jsstring) : regex := map Char s.

Definition any (_ : N) : bool := true.                         (* [\s\S] *)
Definition dot (c : N) : bool := negb (is_line_terminator c).  (* . *)
Definition space : N -> bool := is_space.                      (* \s *)
Definition except (x : N) (c : N) : bool := negb (N.eqb c x).  (* [^x] *)

Record mstate := { caps : list (nat * jsstring); opens : list (nat * nat) }.

Definition mstate0 : mstate := {| caps := []; opens := [] |}.

Fixpoint assoc {A} (n : nat) (l : list (nat * A)) : option A :=
  match l with
  | [] => None
  | (k, v) :: l' => if Nat.eqb k n then Some v else assoc n l'
  end.

(** The text of group [n]; a group that did not take part is empty. *)
Definition group (n : nat) (st : mstate) : jsstring :=
  match assoc n (caps st) with Some s => s | None => [] end.

Definition at_bol (multiline : bool) (input : jsstring) (i : nat) : bool :=
  match i with
  | O => true
  | S j => multiline &&
           match nth_error input j with
           | Some c => is_line_terminator c
           | None => false
           end
  end.

Definition at_eol (multiline : bool) (s : jsstring) : bool :=
  match s with
  | [] => true
  | c :: _ => multiline && is_line_terminator c
  end.

(** [run r input multiline i s st]: match [r] against the suffix [s] of
    [input] that starts at index [i]; the result is the end index. *)
Fixpoint run (r : regex) (input : jsstring) (multiline : bool)
         (i : nat) (s : jsstring) (st : mstate) : option (nat * mstate) :=
  match r with
  | [] => Some (i, st)
  | Char c :: r' =>
      match s with
      | x :: s' => if N.eqb x c then run r' input multiline (S i) s' st else None
      | [] => None
      end
  | Class p :: r' =>
      match s with
      | x :: s' => if p x then run r' input multiline (S i) s' st else None
      | [] => None
      end
  | Star p :: r' =>
      (fix loop (i : nat) (s : jsstring) : option (nat * mstate) :=
         match s with
         | x :: s' =>
             if p x then
               match loop (S i) s' with
               | Some res => Some res
               | None => run r' input multiline i s st
               end
             else run r' input multiline i s st
         | [] => run r' input multiline i s st
         end) i s
  | LazyStar p :: r' =>
      (fix loop (i : nat) (s : jsstring) : option (nat * mstate) :=
         match run r' input multiline i s st with
         | Some res => Some res
         | None =>
             match s with
             | x :: s' => if p x then loop (S i) s' else None
             | [] => None
             end
         end) i s
  | GroupStart n :: r' =>
      run r' input multiline i s
          {| caps := caps st; opens := (n, i) :: opens st |}
  | GroupEnd n :: r' =>
      let start := match assoc n (opens st) with Some k => k | None => i end in
      run r' input multiline i s
          {| caps := (n, substring start i input) :: caps st; opens := opens st |}
  | Bol :: r' =>
      if at_bol multiline input i then run r' input multiline i s st else None
  | Eol :: r' =>
      if at_eol multiline s then run r' input multiline i s st else None
  end.

(** [RegExp.prototype.exec] from index 0: the leftmost match. *)
Fixpoint exec_from (r : regex) (input : jsstring) (multiline : bool)
         (i : nat) (s : jsstring) : option (nat * nat * mstate) :=
  match run r input multiline i s mstate0 with
  | Some (j, st) => Some (i, j, st)
  | None =>
      match s with
      | [] => None
      | _ :: s' => exec_from r input multiline (S i) s'
      end
  end.

(** [input.match(r)] for a pattern without the g flag. *)
Definition match_ (r : regex) (multiline : bool) (input : jsstring)
  : option mstate :=
  match exec_from r input multiline 0 input with
  | Some (_, _, st) => Some st
  | None => None
  end.

(** A replacement string: text and [$n] references. *)
Inductive piece := Text (s : jsstring) | Ref (n : nat).

Fixpoint expand (t : list piece) (st : mstate) : jsstring :=
  match t with
  | [] => []
  | Text s :: t' => s ++ expand t' st
  | Ref n :: t' => group n st ++ expand t' st
  end.

(** [input.replace(r, t)] for a pattern with the g flag.  [skip] counts the
    characters of the current match still to be passed over; after an empty
    match the search resumes one character further. *)
Fixpoint replace_from (r : regex) (multiline : bool) (t : list piece)
         (input : jsstring) (skip i : nat) (s : jsstring) : jsstring :=
  match skip with
  | S k =>
      match s with
      | [] => []
      | _ :: s' => replace_from r multiline t input k (S i) s'
      end
  | O =>
      match run r input multiline i s mstate0 with
      | Some (j, st) =>
          expand t st ++
          match s with
          | [] => []
          | c :: s' =>
              if Nat.eqb j i
              then c :: replace_from r multiline t input 0 (S i) s'
              else replace_from r multiline t input (j - i - 1) (S i) s'
          end
      | None =>
          match s with
          | [] => []
          | c :: s' => c :: replace_from r multiline t input 0 (S i) s'
          end
      end
  end.

Definition replace_all (r : regex) (multiline : bool) (t : list piece)
           (input : jsstring) : jsstring :=
  replace_from r multiline t input 0 0 input.

End Regex.

(** ** Numbers

  A JSON number literal denotes the IEEE 754 binary64 value nearest to it
  (ties to even); [JSON.stringify] prints a number with the shortest
  decimal that reads back as the same value.  Both are computed exactly over
  the rationals. *)

Module Num.

(** A binary64 value other than NaN, which no JSON text denotes.
    [Fin neg m e] is [m * 2^e]; [of_Q] builds it with [m < 2^53] and
    [-1074 <= e <= 971], and with [2^52 <= m] unless [e = -1074]. *)
Inductive double :=
| Zero (neg : bool)
| Inf (neg : bool)
| Fin (neg : bool) (m : positive) (e : Z).

Definition pow (b : Z) (e : Z) : Q := Qred (Qpower (inject_Z b) e).

(** The exponent [e] with [2^e <= q < 2^(e+1)], for [0 < q]. *)
Definition floor_log2 (q : Q) : Z :=
  let g := (Z.log2 (Qnum q) - Z.log2 (Zpos (Qden q)))%Z in
  if Qle_bool (pow 2 g) q then g else (g - 1)%Z.

Definition round_half_even (q : Q) : Z :=
  let f := Qfloor q in
  match Qcompare (Qminus q (inject_Z f)) (1 # 2) with
  | Lt => f
  | Gt => (f + 1)%Z
  | Eq => if Z.even f then f else (f + 1)%Z
  end.

(** The binary64 value nearest to [q], for [0 <= q]. *)
Definition of_Q (neg : bool) (q : Q) : double :=
  if Qle_bool q 0 then Zero neg else
  let e := Z.max (floor_log2 q - 52) (-1074) in
  let m := round_half_even (Qdiv q (pow 2 e)) in
  let '(m, e) := if Z.eqb m (2 ^ 53) then ((2 ^ 52)%Z, (e + 1)%Z) else (m, e) in
  match m with
  | Zpos p => if Z.ltb 971 e then Inf neg else Fin neg p e
  | _ => Zero neg
  end.

(** ToBoolean of a number. *)
Definition truthy (d : double) : bool :=
  match d with Zero _ => false | _ => true end.

Definition to_Q (m : positive) (e : Z) : Q := Qmult (inject_Z (Zpos m)) (pow 2 e).

(** The reals that round to [m * 2^e] lie between [low] and [high]; the
    end points belong to them when [m] is even. *)
Definition low (m : positive) (e : Z) : Q :=
  Qminus (to_Q m e)
         (if Pos.eqb m (2 ^ 52) && Z.ltb (-1074) e then pow 2 (e - 2) else pow 2 (e - 1)).

Definition high (m : positive) (e : Z) : Q := Qplus (to_Q m e) (pow 2 (e - 1)).

Definition rounds_to (m : positive) (e : Z) (c : Q) : bool :=
  if Z.even (Zpos m)
  then Qle_bool (low m e) c && Qle_bool c (high m e)
  else negb (Qle_bool c (low m e)) && negb (Qle_bool (high m e) c).

(** The exponent [g] with [10^g <= q < 10^(g+1)], for [0 < q]. *)
Fixpoint adjust_log10 (fuel : nat) (q : Q) (g : Z) : Z :=
  match fuel with
  | O => g
  | S f =>
      if negb (Qle_bool (pow 10 g) q) then adjust_log10 f q (g - 1)
      else if Qle_bool (pow 10 (g + 1)) q then adjust_log10 f q (g + 1)
      else g
  end.

Definition floor_log10 (q : Q) : Z :=
  adjust_log10 8 q ((floor_log2 q * 30103) / 100000).

Definition Qdist (a b : Q) : Q := Qabs (Qminus a b).

(** The candidates with [k] digits: [s * 10^q] for the two integers [s]
    around [x / 10^q], at the two exponents a [k]-digit decimal near [x]
    can have. *)
Definition candidates (x : Q) (k : Z) : list (Z * Z) :=
  let g := floor_log10 x in
  flat_map (fun q => let f := Qfloor (Qdiv x (pow 10 q)) in [(f, q); ((f + 1)%Z, q)])
           [(g - k + 1)%Z; (g - k + 2)%Z].

Definition valid (m : positive) (e : Z) (k : Z) (c : Z * Z) : bool :=
  let '(s, q) := c in
  Z.leb (10 ^ (k - 1)) s && Z.ltb s (10 ^ k)
  && rounds_to m e (Qmult (inject_Z s) (pow 10 q)).

(** Of two candidates the one nearer to [x]; at equal distance the even one. *)
Definition nearer (x : Q) (a b : Z * Z) : Z * Z :=
  let da := Qdist (Qmult (inject_Z (fst a)) (pow 10 (snd a))) x in
  let db := Qdist (Qmult (inject_Z (fst b)) (pow 10 (snd b))) x in
  match Qcompare da db with
  | Lt => a
  | Gt => b
  | Eq => if Z.even (fst a) then a else b
  end.

Definition best (x : Q) (l : list (Z * Z)) : option (Z * Z) :=
  match l with
  | [] => None
  | c :: l' => Some (fold_left (nearer x) l' c)
  end.

(** The digits [s] and the exponent [n] of Number::toString: [k] as small as
    possible with [s * 10^(n-k)] rounding to the value. *)
Fixpoint shortest (fuel : nat) (m : positive) (e : Z) (k : Z) : Z * Z :=
  let x := to_Q m e in
  match best x (filter (valid m e k) (candidates x k)) with
  | Some (s, q) => (s, (q + k)%Z)
  | None =>
      match fuel with
      | S f => shortest f m e (k + 1)
      | O => (round_half_even (Qdiv x (pow 10 (floor_log10 x - 16))),
              (floor_log10 x + 1)%Z)
      end
  end.

Fixpoint digits_of_uint (u : Decimal.uint) : jsstring :=
  match u with
  | Decimal.Nil => []
  | Decimal.D0 u' => 48%N :: digits_of_uint u'
  | Decimal.D1 u' => 49%N :: digits_of_uint u'
  | Decimal.D2 u' => 50%N :: digits_of_uint u'
  | Decimal.D3 u' => 51%N :: digits_of_uint u'
  | Decimal.D4 u' => 52%N :: digits_of_uint u'
  | Decimal.D5 u' => 53%N :: digits_of_uint u'
  | Decimal.D6 u' => 54%N :: digits_of_uint u'
  | Decimal.D7 u' => 55%N :: digits_of_uint u'
  | Decimal.D8 u' => 56%N :: digits_of_uint u'
  | Decimal.D9 u' => 57%N :: digits_of_uint u'
  end.

(** The decimal digits of a non-negative integer. *)
Definition digits (z : Z) : jsstring := digits_of_uint (N.to_uint (Z.to_N z)).

Definition zeros (n : Z) : jsstring := repeat 48%N (Z.to_nat n).

(** Number::toString for a positive finite value, from its digits [s] and
    exponent [n]. *)
Definition format (s n : Z) : jsstring :=
  let ds := digits s in
  let k := Z.of_nat (List.length ds) in
  if Z.leb k n && Z.leb n 21 then ds ++ zeros (n - k)
  else if Z.ltb 0 n && Z.leb n 21
  then firstn (Z.to_nat n) ds ++ js "." ++ skipn (Z.to_nat n) ds
  else if Z.ltb (-6) n && Z.leb n 0 then js "0." ++ zeros (- n) ++ ds
  else
    let ex := (if Z.ltb (n - 1) 0 then js "-" else js "+") ++ digits (Z.abs (n - 1)) in
    if Z.eqb k 1 then ds ++ js "e" ++ ex
    else firstn 1 ds ++ js "." ++ skipn 1 ds ++ js "e" ++ ex.

(** Number::toString *)
Definition toString (d : double) : jsstring :=
  match d with
  | Zero _ => js "0"
  | Inf neg => (if neg then js "-" else []) ++ js "Infinity"
  | Fin neg m e =>
      let '(s, n) := shortest 16 m e 1 in
      (if neg then js "-" else []) ++ format s n
  end.

Definition is_finite (d : double) : bool :=
  match d with Inf _ => false | _ => true end.

End Num.

(** ** Exceptions *)

Inductive error :=
| SyntaxError                   (* thrown by JSON.parse *)
| TypeError                     (* a network failure of fetch *)
| Error (message : jsstring).   (* new Error(message) *)

Inductive completion (A : Type) :=
| Normal (a : A)
| Throw (e : error).

Arguments Normal {A} a.
Arguments Throw {A} e.

Definition bind {A B} (c : completion A) (k : A -> completion B) : completion B :=
  match c with
  | Normal a => k a
  | Throw e => Throw e
  end.

(** [try { c } catch (e) { h e }] *)
Definition try_catch {A} (c : completion A) (h : error -> completion A)
  : completion A :=
  match c with
  | Normal a => Normal a
  | Throw e => h e
  end.

Notation "x <- c ;; k" := (bind c (fun x => k))
  (at level 61, c at next level, right associativity).

(** A block of statements either returns from the enclosing function
    ([Some v]) or falls through to the statement after it ([None]). *)
Definition or_continue {A} (block : completion (option A)) (next : completion A)
  : completion A :=
  r <- block ;;
  match r with
  | Some v => Normal v
  | None => next
  end.

(** ** JSON *)

Module JSON.

(** The values [JSON.parse] builds.  An object keeps its properties in the
    order of their creation. *)
Inductive json :=
| JNull
| JBool (b : bool)
| JNumber (d : Num.double)
| JString (s : jsstring)
| JArray (l : list json)
| JObject (props : list (jsstring * json)).

(** *** Reading values *)

Fixpoint lookup (k : jsstring) (props : list (jsstring * json)) : option json :=
  match props with
  | [] => None
  | (k', v) :: props' => if Str.eqb k' k then Some v else lookup k props'
  end.

(** The property names the source reads.  No array, string, number,
    boolean or prototype object has a property of one of these names, so
    reading one from anything but an object gives [undefined]. *)
Inductive field :=
| voice_output | diagnostic_report | text_output | content
| web_sources | youtube_videos | data.

Definition name (f : field) : jsstring :=
  match f with
  | voice_output => js "voice_output"
  | diagnostic_report => js "diagnostic_report"
  | text_output => js "text_output"
  | content => js "content"
  | web_sources => js "web_sources"
  | youtube_videos => js "youtube_videos"
  | data => js "data"
  end.

(** [v.f]; [None] is [undefined]. *)
Definition get (f : field) (v : json) : option json :=
  match v with
  | JObject props => lookup (name f) props
  | _ => None
  end.


(** ToBoolean *)
Definition truthy (v : option json) : bool :=
  match v with
  | None => false
  | Some JNull => false
  | Some (JBool b) => b
  | Some (JNumber d) => Num.truthy d
  | Some (JString s) => match s with [] => false | _ => true end
  | Some (JArray _) => true
  | Some (JObject _) => true
  end.

(** [typeof v === 'string'] *)
Definition is_string (v : option json) : bool :=
  match v with Some (JString _) => true | _ => false end.

(** [Array.isArray(v)] *)
Definition isArray (v : option json) : bool :=
  match v with Some (JArray _) => true | _ => false end.

(** *** JSON.parse *)

Inductive res (A : Type) :=
| Ok (a : A) (rest : jsstring)
| Bad
| OutOfFuel.

Arguments Ok {A} a rest.
Arguments Bad {A}.
Arguments OutOfFuel {A}.

Definition is_ws (c : N) : bool :=
  N.eqb c 9 || N.eqb c 10 || N.eqb c 13 || N.eqb c 32.

Fixpoint skip_ws (s : jsstring) : jsstring :=
  match s with
  | c :: s' => if is_ws c then skip_ws s' else s
  | [] => []
  end.

Definition is_digit (c : N) : bool := N.leb 48 c && N.leb c 57.

Definition hex_value (c : N) : option N :=
  if is_digit c then Some (c - 48)%N
  else if N.leb 97 c && N.leb c 102 then Some (c - 87)%N
  else if N.leb 65 c && N.leb c 70 then Some (c - 55)%N
  else None.

Definition hex4 (a b c d : N) : option N :=
  match hex_value a, hex_value b, hex_value c, hex_value d with
  | Some x, Some y, Some z, Some w => Some (((x * 16 + y) * 16 + z) * 16 + w)%N
  | _, _, _, _ => None
  end.

(** The character a one-letter escape stands for: quote, backslash, slash,
    b, f, n, r, t. *)
Definition escape (c : N) : option N :=
  if N.eqb c 34 then Some 34%N
  else if N.eqb c 92 then Some 92%N
  else if N.eqb c 47 then Some 47%N
  else if N.eqb c 98 then Some 8%N
  else if N.eqb c 102 then Some 12%N
  else if N.eqb c 110 then Some 10%N
  else if N.eqb c 114 then Some 13%N
  else if N.eqb c 116 then Some 9%N
  else None.

Definition cons_res (c : N) (r : res jsstring) : res jsstring :=
  match r with
  | Ok s rest => Ok (c :: s) rest
  | Bad => Bad
  | OutOfFuel => OutOfFuel
  end.

(** The characters of a string literal after its opening quote. *)
Fixpoint parse_string (s : jsstring) : res jsstring :=
  match s with
  | [] => Bad
  | c :: s1 =>
      if N.eqb c 34 then Ok [] s1
      else if N.eqb c 92 then
        match s1 with
        | [] => Bad
        | e :: s2 =>
            if N.eqb e 117 then
              match s2 with
              | h1 :: h2 :: h3 :: h4 :: s3 =>
                  match hex4 h1 h2 h3 h4 with
                  | Some u => cons_res u (parse_string s3)
                  | None => Bad
                  end
              | _ => Bad
              end
            else
              match escape e with
              | Some u => cons_res u (parse_string s2)
              | None => Bad
              end
        end
      else if N.ltb c 32 then Bad
      else cons_res c (parse_string s1)
  end.

(** The longest run of digits at the head of [s]. *)
Fixpoint take_digits (s : jsstring) : jsstring * jsstring :=
  match s with
  | c :: s' =>
      if is_digit c then let '(ds, rest) := take_digits s' in (c :: ds, rest)
      else ([], s)
  | [] => ([], [])
  end.

Definition decimal (ds : jsstring) : Z :=
  fold_left (fun acc c => (acc * 10 + Z.of_N (c - 48))%Z) ds 0%Z.

(** An optional minus sign. *)
Definition number_sign (s : jsstring) : bool * jsstring :=
  match s with
  | c :: s' => if N.eqb c 45 then (true, s') else (false, s)
  | [] => (false, s)
  end.

(** 0 | [1-9][0-9]* *)
Definition number_int (s : jsstring) : option (jsstring * jsstring) :=
  match s with
  | c :: s' =>
      if N.eqb c 48 then Some ([c], s')
      else if is_digit c then let '(ds, rest) := take_digits s' in Some (c :: ds, rest)
      else None
  | [] => None
  end.

(** An optional fraction .[0-9]+ *)
Definition number_frac (s : jsstring) : option (jsstring * jsstring) :=
  match s with
  | c :: s' =>
      if N.eqb c 46 then
        match take_digits s' with
        | ([], _) => None
        | (ds, rest) => Some (ds, rest)
        end
      else Some ([], s)
  | [] => Some ([], s)
  end.

(** An optional exponent [eE][+-]?[0-9]+ *)
Definition number_exp (s : jsstring) : option (Z * jsstring) :=
  match s with
  | c :: s' =>
      if N.eqb c 101 || N.eqb c 69 then
        let '(eneg, s'') :=
          match s' with
          | g :: t =>
              if N.eqb g 45 then (true, t)
              else if N.eqb g 43 then (false, t)
              else (false, s')
          | [] => (false, s')
          end in
        match take_digits s'' with
        | ([], _) => None
        | (ds, rest) => Some ((if eneg then - decimal ds else decimal ds)%Z, rest)
        end
      else Some (0%Z, s)
  | [] => Some (0%Z, s)
  end.

(** A number literal and the value it denotes. *)
Definition parse_number (s : jsstring) : res Num.double :=
  let '(neg, s0) := number_sign s in
  match number_int s0 with
  | None => Bad
  | Some (ints, s1) =>
      match number_frac s1 with
      | None => Bad
      | Some (fracs, s2) =>
          match number_exp s2 with
          | None => Bad
          | Some (ex, s3) =>
              let mant := decimal (ints ++ fracs) in
              let q := Qmult (inject_Z mant)
                             (Num.pow 10 (ex - Z.of_nat (List.length fracs))) in
              Ok (Num.of_Q neg q) s3
          end
      end
  end.

(** CreateDataProperty: a name defined twice keeps its first place and its
    last value. *)
Fixpoint set_prop (k : jsstring) (v : json) (props : list (jsstring * json))
  : list (jsstring * json) :=
  match props with
  | [] => [(k, v)]
  | (k', v') :: props' =>
      if Str.eqb k' k then (k', v) :: props' else (k', v') :: set_prop k v props'
  end.

(** [parse_value] reads a value after optional white space,
    [parse_elements] the elements of an array after its bracket and
    [parse_members] the members of an object after its brace. *)
Fixpoint parse_value (fuel : nat) (s : jsstring) : res json :=
  match fuel with
  | O => OutOfFuel
  | S f =>
      match skip_ws s with
      | [] => Bad
      | c :: s1 =>
          if N.eqb c 123 then          (* { *)
            match skip_ws s1 with
            | d :: s2 =>
                if N.eqb d 125 then Ok (JObject []) s2
                else parse_members f (d :: s2) []
            | [] => Bad
            end
          else if N.eqb c 91 then      (* [ *)
            match skip_ws s1 with
            | d :: s2 =>
                if N.eqb d 93 then Ok (JArray []) s2
                else parse_elements f (d :: s2) []
            | [] => Bad
            end
          else if N.eqb c 34 then      (* string *)
            match parse_string s1 with
            | Ok str rest => Ok (JString str) rest
            | Bad => Bad
            | OutOfFuel => OutOfFuel
            end
          else if starts_with (js "true") (c :: s1) then Ok (JBool true) (skipn 4 (c :: s1))
          else if starts_with (js "false") (c :: s1) then Ok (JBool false) (skipn 5 (c :: s1))
          else if starts_with (js "null") (c :: s1) then Ok JNull (skipn 4 (c :: s1))
          else
            match parse_number (c :: s1) with
            | Ok d rest => Ok (JNumber d) rest
            | Bad => Bad
            | OutOfFuel => OutOfFuel
            end
      end
  end

with parse_elements (fuel : nat) (s : jsstring) (acc : list json)
     : res json :=
  match fuel with
  | O => OutOfFuel
  | S f =>
      match parse_value f s with
      | Ok v rest =>
          match skip_ws rest with
          | c :: s1 =>
              if N.eqb c 44 then parse_elements f s1 (v :: acc)
              else if N.eqb c 93 then Ok (JArray (rev (v :: acc))) s1
              else Bad
          | [] => Bad
          end
      | Bad => Bad
      | OutOfFuel => OutOfFuel
      end
  end

with parse_members (fuel : nat) (s : jsstring) (acc : list (jsstring * json))
     : res json :=
  match fuel with
  | O => OutOfFuel
  | S f =>
      match skip_ws s with
      | c :: s1 =>
          if N.eqb c 34 then
            match parse_string s1 with
            | Ok k rest =>
                match skip_ws rest with
                | d :: s2 =>
                    if N.eqb d 58 then
                      match parse_value f s2 with
                      | Ok v rest' =>
                          match skip_ws rest' with
                          | e :: s3 =>
                              if N.eqb e 44 then parse_members f s3 (set_prop k v acc)
                              else if N.eqb e 125 then Ok (JObject (set_prop k v acc)) s3
                              else Bad
                          | [] => Bad
                          end
                      | Bad => Bad
                      | OutOfFuel => OutOfFuel
                      end
                    else Bad
                | [] => Bad
                end
            | Bad => Bad
            | OutOfFuel => OutOfFuel
            end
          else Bad
      | [] => Bad
      end
  end.

(** Fuel that never runs out (see [parse_value_fuel]). *)
Definition fuel_for (s : jsstring) : nat := 2 * List.length s + 1.

(** [JSON.parse(text)]: one value, with white space around it, or a
    SyntaxError. *)
Definition parse (text : jsstring) : completion json :=
  match parse_value (fuel_for text) text with
  | Ok v rest =>
      match skip_ws rest with
      | [] => Normal v
      | _ :: _ => Throw SyntaxError
      end
  | Bad => Throw SyntaxError
  | OutOfFuel => Throw SyntaxError
  end.

(** *** JSON.stringify *)

Definition hex_digit (n : N) : N := if N.ltb n 10 then (48 + n)%N else (87 + n)%N.

(** UnicodeEscape: a backslash, u and four lower-case hexadecimal digits. *)
Definition unicode_escape (c : N) : jsstring :=
  [92%N; 117%N; hex_digit (c / 4096 mod 16); hex_digit (c / 256 mod 16);
   hex_digit (c / 16 mod 16); hex_digit (c mod 16)].

Definition is_high_surrogate (c : N) : bool := N.leb 55296 c && N.leb c 56319.
Definition is_low_surrogate (c : N) : bool := N.leb 56320 c && N.leb c 57343.

(** The body of QuoteJSONString, code point by code point: a surrogate
    that is not half of a pair is escaped. *)
Fixpoint quote_body (s : jsstring) : jsstring :=
  match s with
  | [] => []
  | c :: s1 =>
      if N.eqb c 8 then js "\b" ++ quote_body s1
      else if N.eqb c 9 then js "\t" ++ quote_body s1
      else if N.eqb c 10 then js "\n" ++ quote_body s1
      else if N.eqb c 12 then js "\f" ++ quote_body s1
      else if N.eqb c 13 then js "\r" ++ quote_body s1
      else if N.eqb c 34 then [92%N; 34%N] ++ quote_body s1
      else if N.eqb c 92 then [92%N; 92%N] ++ quote_body s1
      else if N.ltb c 32 then unicode_escape c ++ quote_body s1
      else if is_high_surrogate c then
        match s1 with
        | d :: s2 =>
            if is_low_surrogate d then c :: d :: quote_body s2
            else unicode_escape c ++ quote_body s1
        | [] => unicode_escape c
        end
      else if is_low_surrogate c then unicode_escape c ++ quote_body s1
      else c :: quote_body s1
  end.

Definition quote (s : jsstring) : jsstring := dq ++ quote_body s ++ dq.

(** An array index is the canonical decimal of an integer below 2^32 - 1. *)
Definition array_index (k : jsstring) : option Z :=
  match k with
  | [] => None
  | c :: k' =>
      if forallb is_digit k && (negb (N.eqb c 48) || match k' with [] => true | _ => false end)
      then let n := decimal k in
           if Z.ltb n 4294967295 then Some n else None
      else None
  end.

Fixpoint insert_index {A} (n : Z) (x : A) (l : list (Z * A)) : list (Z * A) :=
  match l with
  | [] => [(n, x)]
  | (m, y) :: l' => if Z.ltb n m then (n, x) :: l else (m, y) :: insert_index n x l'
  end.

(** OrdinaryOwnPropertyKeys: the array indices in ascending order, then the
    other names in the order of their creation. *)
Definition own_order {A} (props : list (jsstring * A)) : list (jsstring * A) :=
  let indexed :=
    fold_left (fun acc p =>
                 match array_index (fst p) with
                 | Some n => insert_index n p acc
                 | None => acc
                 end) props [] in
  map snd indexed ++
  filter (fun p => match array_index (fst p) with Some _ => false | None => true end) props.

Fixpoint join (sep : jsstring) (l : list jsstring) : jsstring :=
  match l with
  | [] => []
  | [x] => x
  | x :: l' => x ++ sep ++ join sep l'
  end.

(** [JSON.stringify(v)] for a value [JSON.parse] built: no gap, no
    replacer, nothing to skip. *)
Fixpoint stringify (v : json) : jsstring :=
  match v with
  | JNull => js "null"
  | JBool true => js "true"
  | JBool false => js "false"
  | JNumber d => if Num.is_finite d then Num.toString d else js "null"
  | JString s => quote s
  | JArray l => js "[" ++ join (js ",") (map stringify l) ++ js "]"
  | JObject props =>
      let members :=
        (fix each (ps : list (jsstring * json)) : list (jsstring * jsstring) :=
           match ps with
           | [] => []
           | (k, x) :: ps' => (k, stringify x) :: each ps'
           end) props in
      js "{" ++
      join (js ",") (map (fun m => quote (fst m) ++ js ":" ++ snd m) (own_order members))
      ++ js "}"
  end.

End JSON.

(** ** The diagnostic panel: src/components/livekit/text-output-panel.tsx *)

Module TextOutputPanel.
Import JSON Regex.

Record payload := {
  mainContent : json;
  webSources : json;
  youtubeVideos : json;
  structured : bool
}.

(** [Array.isArray(v) ? v : []] *)
Definition array_or_empty (v : option json) : json :=
  match v with
  | Some x => if isArray v then x else JArray []
  | None => JArray []
  end.

(** [null] is [None]. *)
Definition parseStructured (raw : jsstring) : option payload :=
  let attempt :=
    try_catch
      (parsed <- JSON.parse raw ;;
       Normal
         (match get content parsed with
          | Some c =>
              if truthy (Some parsed) && truthy (get content parsed) then
                Some {| mainContent := c;
                        webSources := array_or_empty (get web_sources parsed);
                        youtubeVideos := array_or_empty (get youtube_videos parsed);
                        structured := true |}
              else None
          | None => None
          end))
      (fun _ => Normal None) in
  match attempt with
  | Normal r => r
  | Throw _ => None
  end.

Definition legacyParse (content : jsstring) : payload :=
  match content with
  | [] => {| mainContent := JString []; webSources := JArray [];
             youtubeVideos := JArray []; structured := false |}
  | _ => {| mainContent := JString content; webSources := JArray [];
            youtubeVideos := JArray []; structured := false |}
  end.

(** [parseStructured(textContent) || legacyParse(textContent)] *)
Definition parsed (textContent : jsstring) : payload :=
  match parseStructured textContent with
  | Some p => p
  | None => legacyParse textContent
  end.

(** U+2022 *)
Definition bullet : N := 8226%N.

(** /\*\*([^*]+):\*\*/g *)
Definition header_re : regex :=
  Lit (js "**") ++ [GroupStart 1] ++ Plus (except 42) ++ [GroupEnd 1] ++ Lit (js ":**").

Definition header_to : list piece :=
  [Text (jsq "<h3 class='text-lg font-bold text-blue-600 dark:text-blue-400 mt-6 mb-3 border-b border-blue-200 dark:border-blue-800 pb-2'>");
   Ref 1;
   Text (js "</h3>")].

(** /\*\*Category:\*\*\s*([^\n]+)/g *)
Definition category_re : regex :=
  Lit (js "**Category:**") ++ [Star space] ++ [GroupStart 1] ++ Plus (except 10)
  ++ [GroupEnd 1].

Definition category_to : list piece :=
  [Text (jsq "<div class='bg-blue-50 dark:bg-blue-900/20 p-3 rounded-lg mb-4'><strong class='text-blue-700 dark:text-blue-300'>Category:</strong> <span class='text-gray-800 dark:text-gray-200'>");
   Ref 1;
   Text (js "</span></div>")].

(** /^• (.+)$/gm *)
Definition bullet_re : regex :=
  [Bol; Char bullet; Char 32] ++ [GroupStart 1] ++ Plus dot ++ [GroupEnd 1] ++ [Eol].

Definition bullet_to : list piece :=
  [Text (jsq "<div class='flex items-start mb-3 p-2 hover:bg-gray-50 dark:hover:bg-gray-800/50 rounded'><span class='text-blue-500 mr-3 mt-1 text-lg'>" ++ [bullet]
         ++ jsq "</span><span class='text-gray-800 dark:text-gray-200 leading-relaxed'>");
   Ref 1;
   Text (js "</span></div>")].

(** /\n\n/g *)
Definition paragraph_re : regex := [Char 10; Char 10].
Definition paragraph_to : list piece := [Text (jsq "<div class='my-4'></div>")].

(** /\n/g *)
Definition newline_re : regex := [Char 10].
Definition newline_to : list piece := [Text (js "<br>")].

Definition formatMainContent (content : jsstring) : jsstring :=
  replace_all newline_re false newline_to
    (replace_all paragraph_re false paragraph_to
       (replace_all bullet_re true bullet_to
          (replace_all category_re false category_to
             (replace_all header_re false header_to content)))).

End TextOutputPanel.

(** ** Chat messages

  What the source reads of a received message: who sent it and its text.
  The text is typed as a string; the source checks that at run time. *)

Record Participant := { isLocal : bool }.

Record ChatMessage := {
  id : jsstring;
  from : option Participant;
  message : JSON.json
}.

(** [!msg.from?.isLocal] *)
Definition from_assistant (msg : ChatMessage) : bool :=
  negb (match from msg with
        | Some p => isLocal p
        | None => false
        end).

(** [{ ...m, message: v }] *)
Definition with_message (m : ChatMessage) (v : JSON.json) : ChatMessage :=
  {| id := id m; from := from m; message := v |}.

(** ** Local-parse variant of the session view: src/unnamed/part_000 *)

Module LocalParse.
Import JSON Regex.

(** The pattern ^VOICE:(A)\|\|\|TEXT:(B)$ with A a lazy and B a greedy run
    of any characters, line terminators included. *)
Definition voiceText_re : regex :=
  [Bol] ++ Lit (js "VOICE:") ++ [GroupStart 1; LazyStar any; GroupEnd 1]
  ++ Lit (js "|||TEXT:") ++ [GroupStart 2; Star any; GroupEnd 2] ++ [Eol].

(** The pattern ^VOICE:(A)\|\|\|TEXT:B$, the same without its second
    group. *)
Definition voice_re : regex :=
  [Bol] ++ Lit (js "VOICE:") ++ [GroupStart 1; LazyStar any; GroupEnd 1]
  ++ Lit (js "|||TEXT:") ++ [Star any] ++ [Eol].

(** [p && p.f && typeof p.f.content === 'string'], giving [p.f]. *)
Definition with_content (f : field) (p : json) : option json :=
  match get f p with
  | Some sub =>
      if truthy (Some p) && truthy (Some sub) && is_string (get content sub)
      then Some sub else None
  | None => None
  end.

(** The resolver on the text of the last assistant message. *)
Definition resolve (raw : jsstring) : completion jsstring :=
  (* Try to parse as new structured JSON with diagnostic_report *)
  or_continue
    (try_catch
       (parsed <- JSON.parse raw ;;
        Normal (option_map stringify (with_content diagnostic_report parsed)))
       (fun _ => Normal None))
  (* Try legacy structured JSON with text_output *)
  (or_continue
    (try_catch
       (parsed <- JSON.parse raw ;;
        Normal (option_map stringify (with_content text_output parsed)))
       (fun _ => Normal None))
  (* Pattern VOICE:...|||TEXT:... *)
  (or_continue
    (match match_ voiceText_re false raw with
     | Some voiceTextMatch =>
         let textSegment := group 2 voiceTextMatch in
         try_catch
           (parsedText <- JSON.parse textSegment ;;
            Normal
              (match with_content diagnostic_report parsedText with
               | Some report => Some (stringify report)
               | None =>
                   if truthy (Some parsedText) && is_string (get content parsedText)
                   then Some (stringify parsedText)
                   else None
               end))
           (fun _ => Normal (Some textSegment))
     | None => Normal None
     end)
  (* nothing structured found *)
  (Normal []))).

Definition getLatestTextContent (messages : list ChatMessage)
  : completion jsstring :=
  let assistantMessages := filter from_assistant messages in
  match rev assistantMessages with
  | [] => Normal []
  | lastMessage :: _ =>
      match message lastMessage with
      | JString raw => resolve raw
      | _ => Normal []
      end
  end.

(** The text shown in the chat for a message whose text is [raw]. *)
Definition display (raw : jsstring) : completion json :=
  or_continue
    (try_catch
       (parsed <- JSON.parse raw ;;
        Normal (if truthy (Some parsed) && truthy (get voice_output parsed)
                then get voice_output parsed else None))
       (fun _ => Normal None))
  (or_continue
    (try_catch
       (parsed <- JSON.parse raw ;;
        Normal (if truthy (Some parsed) && truthy (get voice_output parsed)
                then get voice_output parsed else None))
       (fun _ => Normal None))
  (match match_ voice_re false raw with
   | Some m => Normal (JString (trim (group 1 m)))
   | None => Normal (JString raw)
   end)).

Definition displayMessage (m : ChatMessage) : completion ChatMessage :=
  match message m with
  | JString raw => v <- display raw ;; Normal (with_message m v)
  | _ => Normal m
  end.

(** [messages.map(...)] *)
Fixpoint displayMessages (messages : list ChatMessage)
  : completion (list ChatMessage) :=
  match messages with
  | [] => Normal []
  | m :: rest =>
      m' <- displayMessage m ;;
      rest' <- displayMessages rest ;;
      Normal (m' :: rest')
  end.

End LocalParse.

(** ** HTTP responses *)

Module Http.

(** A response: its status and what reading its body gives, the text or
    the failure of the read. *)
Record Response := {
  status : N;
  body : completion jsstring
}.

(** [response.ok]: the status is in the range 200-299. *)
Definition ok (r : Response) : bool := N.leb 200 (status r) && N.leb (status r) 299.

(** [await response.text()] *)
Definition text (r : Response) : completion jsstring := body r.

(** [await response.json()] *)
Definition json (r : Response) : completion JSON.json :=
  t <- body r ;; JSON.parse t.

End Http.

(** ** Remote-fetch variant of the session view: src/components/session-view.tsx *)

Module SessionView.
Import JSON Regex.

Definition AgentState := jsstring.

Definition isAgentAvailable (agentState : AgentState) : bool :=
  Str.eqb agentState (js "listening") || Str.eqb agentState (js "thinking")
  || Str.eqb agentState (js "speaking").


Definition getLatestTextContent (diagnosticData : jsstring) : jsstring :=
  match diagnosticData with
  | [] => []
  | _ => diagnosticData
  end.

(** The pattern ^VOICE:(A)\|\|\|TEXT:B$ with A a lazy and B a greedy run of
    any characters, as in the local-parse variant. *)
Definition voice_re : regex :=
  [Bol] ++ Lit (js "VOICE:") ++ [GroupStart 1; LazyStar any; GroupEnd 1]
  ++ Lit (js "|||TEXT:") ++ [Star any] ++ [Eol].

(** The text shown in the chat for a message whose text is [raw]. *)
Definition display (raw : jsstring) : completion json :=
  or_continue
    (try_catch
       (parsed <- JSON.parse raw ;;
        Normal (if truthy (Some parsed) && truthy (get voice_output parsed)
                then get voice_output parsed else None))
       (fun _ => Normal None))
  (match match_ voice_re false raw with
   | Some m => Normal (JString (trim (group 1 m)))
   | None => Normal (JString raw)
   end).

Definition displayMessage (m : ChatMessage) : completion ChatMessage :=
  match message m with
  | JString raw => v <- display raw ;; Normal (with_message m v)
  | _ => Normal m
  end.

Fixpoint displayMessages (messages : list ChatMessage)
  : completion (list ChatMessage) :=
  match messages with
  | [] => Normal []
  | m :: rest =>
      m' <- displayMessage m ;;
      rest' <- displayMessages rest ;;
      Normal (m' :: rest')
  end.

(** *** The lifecycle guard

    The effect with dependencies [agentState, sessionStarted, room], and
    the timers of the event loop.  Times are in milliseconds. *)

Inductive action :=
| ToastAlert (title reason : jsstring)
| Disconnect.

Definition did_not_join : jsstring := js "Agent did not join the room. ".
Definition did_not_initialize : jsstring :=
  js "Agent connected but did not complete initializing. ".

(** The callback given to [setTimeout]; [agentState] is the value of the
    render that ran the effect. *)
Definition on_timeout (agentState : AgentState) : list action :=
  if negb (isAgentAvailable agentState) then
    let reason :=
      if Str.eqb agentState (js "connecting")
      then did_not_join else did_not_initialize in
    [ToastAlert (js "Session ended") reason; Disconnect]
  else [].

(** A pending timer: its handle, the time left and the agent state its
    callback closes over. *)
Record Timer := {
  handle : nat;
  remaining : N;
  seen : AgentState
}.

Record View := {
  agentState : AgentState;
  sessionStarted : bool;
  room : nat;
  timers : list Timer;         (* the pending timers of the event loop *)
  cleanup : option nat;        (* the handle the effect's cleanup clears *)
  next_handle : nat;
  mounted : bool
}.

Inductive event :=
| Render (agentState : AgentState) (sessionStarted : bool) (room : nat)
| Wait (ms : N)
| Unmount.

(** [clearTimeout(h)] *)
Definition clearTimeout (h : nat) (ts : list Timer) : list Timer :=
  filter (fun t => negb (Nat.eqb (handle t) h)) ts.

Definition run_cleanup (v : View) : View :=
  match cleanup v with
  | Some h =>
      {| agentState := agentState v; sessionStarted := sessionStarted v;
         room := room v; timers := clearTimeout h (timers v);
         cleanup := None; next_handle := next_handle v; mounted := mounted v |}
  | None => v
  end.

(** The body of the effect, run with the values of the render. *)
Definition run_effect (a : AgentState) (s : bool) (r : nat) (v : View) : View :=
  if s then
    let timeout := next_handle v in
    {| agentState := a; sessionStarted := s; room := r;
       timers := timers v ++ [{| handle := timeout; remaining := 10000; seen := a |}];
       cleanup := Some timeout;
       next_handle := S timeout; mounted := mounted v |}
  else
    {| agentState := a; sessionStarted := s; room := r;
       timers := timers v; cleanup := None;
       next_handle := next_handle v; mounted := mounted v |}.


Definition same_deps (v : View) (a : AgentState) (s : bool) (r : nat) : bool :=
  Str.eqb (agentState v) a && Bool.eqb (sessionStarted v) s && Nat.eqb (room v) r.

Fixpoint insert_due (t : Timer) (l : list Timer) : list Timer :=
  match l with
  | [] => [t]
  | u :: l' => if N.ltb (remaining t) (remaining u) then t :: l else u :: insert_due t l'
  end.

(** The timers that come due within [ms], earliest first. *)
Definition due (ms : N) (ts : list Timer) : list Timer :=
  fold_left (fun acc t => insert_due t acc)
            (filter (fun t => N.leb (remaining t) ms) ts) [].

Definition later (ms : N) (ts : list Timer) : list Timer :=
  map (fun t => {| handle := handle t; remaining := remaining t - ms; seen := seen t |})
      (filter (fun t => negb (N.leb (remaining t) ms)) ts).

Definition step (v : View) (e : event) : View * list action :=
  match e with
  | Render a s r =>
      if mounted v && negb (same_deps v a s r)
      then (run_effect a s r (run_cleanup v), [])
      else (v, [])
  | Wait ms =>
      ({| agentState := agentState v; sessionStarted := sessionStarted v;
          room := room v; timers := later ms (timers v);
          cleanup := cleanup v; next_handle := next_handle v;
          mounted := mounted v |},
       flat_map (fun t => on_timeout (seen t)) (due ms (timers v)))
  | Unmount =>
      let v' := run_cleanup v in
      ({| agentState := agentState v'; sessionStarted := sessionStarted v';
          room := room v'; timers := timers v'; cleanup := None;
          next_handle := next_handle v'; mounted := false |}, [])
  end.

Fixpoint run (v : View) (tr : list event) : View * list action :=
  match tr with
  | [] => (v, [])
  | e :: tr' =>
      let '(v1, out1) := step v e in
      let '(v2, out2) := run v1 tr' in
      (v2, out1 ++ out2)
  end.



(** The wording of the notice for a state that is not a ready one. *)
Definition reason (a : AgentState) : jsstring :=
  if Str.eqb a (js "connecting") then did_not_join else did_not_initialize.


End SessionView.

(** ** src/hooks/useConnectionDetails.ts *)

Module UseConnectionDetails.

Definition generic_message : jsstring := js "Error fetching connection details!".

(** The body of the try block; [fetched] is what
    [await fetch(url.toString(), ...)] gives. *)
Definition request (fetched : completion Http.Response) : completion JSON.json :=
  res <- fetched ;;
  if negb (Http.ok res)
  then (t <- Http.text res ;; Throw (Error t))
  else Http.json res.

Definition fetchConnectionDetails (fetched : completion Http.Response)
  : completion JSON.json :=
  try_catch (request fetched)
            (fun error => Throw (Error generic_message)).

End UseConnectionDetails.

(** ** The panel as the session view renders it

  [<TextOutputPanel textContent={getLatestTextContent()} />]: the panel
  holds no state of its own, what it shows is computed from the text it is
  given at each render. *)

Module Rendered.

Definition local_parse (messages : list ChatMessage)
  : completion TextOutputPanel.payload :=
  t <- LocalParse.getLatestTextContent messages ;;
  Normal (TextOutputPanel.parsed t).

Definition remote_fetch (diagnosticData : jsstring) : TextOutputPanel.payload :=
  TextOutputPanel.parsed (SessionView.getLatestTextContent diagnosticData).

End Rendered.

(** ** Inputs of the worked examples *)

Module Examples.
Import JSON.

Definition assistant (raw : jsstring) : ChatMessage :=
  {| id := js "a"; from := Some {| isLocal := false |}; message := JString raw |}.

(** Every message of the list is the user's own. *)
Definition all_local (l : list ChatMessage) : bool :=
  forallb (fun x => negb (from_assistant x)) l.

Definition report_only : jsstring := jsq "{'diagnostic_report':{'content':'X'}}".

(** The report text with a Category line, a bullet and a blank line. *)
Definition category_report : jsstring :=
  js "**Category:** Network" ++ [10%N] ++ [TextOutputPanel.bullet]
  ++ js " Check cable" ++ [10%N; 10%N] ++ js "Next".

Definition header_block (label : jsstring) : jsstring :=
  Regex.expand TextOutputPanel.header_to
    {| Regex.caps := [(1, label)]; Regex.opens := [] |}.

Definition callout_block (text : jsstring) : jsstring :=
  Regex.expand TextOutputPanel.category_to
    {| Regex.caps := [(1, text)]; Regex.opens := [] |}.

Definition bullet_row (text : jsstring) : jsstring :=
  Regex.expand TextOutputPanel.bullet_to
    {| Regex.caps := [(1, text)]; Regex.opens := [] |}.

Definition paragraph_break : jsstring :=
  Regex.expand TextOutputPanel.paragraph_to Regex.mstate0.

(** How every callout block starts. *)
Definition callout_open : jsstring := jsq "<div class='bg-blue-50".

Definition report_message : jsstring :=
  jsq "{'diagnostic_report':{'content':'X','web_sources':[{'title':'T','url':'U'}]}}".


Definition empty_voice_output : jsstring := jsq "{'voice_output':''}".
Definition some_voice_output : jsstring := jsq "{'voice_output':'Hello'}".

End Examples.

(** * Properties *)

(** ** The runtime model *)

Module JSONFacts.
Import JSON.

Lemma skip_ws_le s : List.length (skip_ws s) <= List.length s.
Proof.
  induction s as [|c s IH]; simpl; [lia|].
  destruct (is_ws c); simpl; lia.
Qed.

Lemma cons_res_ok c r k rest :
  cons_res c r = Ok k rest -> exists k', k = c :: k' /\ r = Ok k' rest.
Proof.
  destruct r; simpl; intro H; try discriminate.
  injection H as <- <-. eauto.
Qed.

Lemma cons_res_fuel c r : cons_res c r = OutOfFuel -> r = OutOfFuel.
Proof. destruct r; simpl; congruence. Qed.

Ltac refuse := split; [discriminate | intros; discriminate].

Ltac by_cons_res Hf Hl :=
  split;
  [ let H := fresh in intro H; apply cons_res_fuel in H; contradiction
  | let H := fresh in
    intros ? ? H; apply cons_res_ok in H as (? & _ & H);
    apply Hl in H; simpl; lia ].

Lemma parse_string_spec n :
  forall s, List.length s <= n ->
    parse_string s <> OutOfFuel /\
    forall k r, parse_string s = Ok k r -> List.length r < List.length s.
Proof.
  induction n as [|n IH]; intros s Hn.
  - destruct s; simpl in *; [refuse | lia].
  - destruct s as [|c s1]; simpl; [refuse|].
    simpl in Hn.
    destruct (N.eqb c 34).
    { split; [discriminate|]. intros k r H. injection H as <- <-. lia. }
    destruct (N.eqb c 92).
    { destruct s1 as [|e s2]; [refuse|].
      simpl in Hn.
      destruct (N.eqb e 117).
      - destruct s2 as [|h1 [|h2 [|h3 [|h4 s3]]]]; try refuse.
        simpl in Hn.
        destruct (hex4 h1 h2 h3 h4); [|refuse].
        destruct (IH s3 ltac:(lia)) as [Hf Hl]. by_cons_res Hf Hl.
      - destruct (escape e); [|refuse].
        destruct (IH s2 ltac:(lia)) as [Hf Hl]. by_cons_res Hf Hl. }
    destruct (N.ltb c 32); [refuse|].
    destruct (IH s1 ltac:(lia)) as [Hf Hl]. by_cons_res Hf Hl.
Qed.

Lemma parse_string_fuel s : parse_string s <> OutOfFuel.
Proof. exact (proj1 (parse_string_spec _ s (le_n _))). Qed.

Lemma parse_string_lt s k r :
  parse_string s = Ok k r -> List.length r < List.length s.
Proof. exact (proj2 (parse_string_spec _ s (le_n _)) k r). Qed.

Lemma take_digits_le s ds r :
  take_digits s = (ds, r) -> List.length r <= List.length s.
Proof.
  revert ds r. induction s as [|c s IH]; simpl; intros ds r H.
  - injection H as <- <-. simpl. lia.
  - destruct (is_digit c); [|injection H as <- <-; simpl; lia].
    destruct (take_digits s) as [ds' r']. injection H as <- <-.
    specialize (IH ds' r' eq_refl). lia.
Qed.

Lemma number_sign_le s neg r :
  number_sign s = (neg, r) -> List.length r <= List.length s.
Proof.
  destruct s as [|c s]; simpl; [intro H; injection H as <- <-; simpl; lia|].
  destruct (N.eqb c 45); intro H; injection H as <- <-; simpl; lia.
Qed.

Lemma number_int_lt s ds r :
  number_int s = Some (ds, r) -> List.length r < List.length s.
Proof.
  destruct s as [|c s]; simpl; [discriminate|].
  destruct (N.eqb c 48); [intro H; injection H as <- <-; lia|].
  destruct (is_digit c); [|discriminate].
  destruct (take_digits s) as [ds' r'] eqn:E. apply take_digits_le in E.
  intro H; injection H as <- <-. lia.
Qed.

Lemma number_frac_le s ds r :
  number_frac s = Some (ds, r) -> List.length r <= List.length s.
Proof.
  destruct s as [|c s]; simpl; [intro H; injection H as <- <-; simpl; lia|].
  destruct (N.eqb c 46); [|intro H; injection H as <- <-; simpl; lia].
  destruct (take_digits s) as [[|d ds'] r'] eqn:E; [discriminate|].
  apply take_digits_le in E. intro H; injection H as <- <-. lia.
Qed.

Lemma number_exp_le s ex r :
  number_exp s = Some (ex, r) -> List.length r <= List.length s.
Proof.
  destruct s as [|c s]; simpl; [intro H; injection H as <- <-; simpl; lia|].
  destruct (N.eqb c 101 || N.eqb c 69); [|intro H; injection H as <- <-; simpl; lia].
  assert (forall (eneg : bool) s'', List.length s'' <= List.length s ->
            (let (ds, rest) := take_digits s'' in
             match ds with
             | [] => None
             | _ :: _ => Some ((if eneg then - decimal ds else decimal ds)%Z, rest)
             end) = Some (ex, r) -> List.length r <= S (List.length s)) as K.
  { intros eneg s'' Hs. destruct (take_digits s'') as [[|d ds'] r'] eqn:E; [discriminate|].
    apply take_digits_le in E. intro H; injection H as _ <-. lia. }
  destruct s as [|g t]; [apply (K false); simpl; lia|].
  destruct (N.eqb g 45); [apply (K true); simpl; lia|].
  destruct (N.eqb g 43); apply (K false); simpl; lia.
Qed.

Lemma parse_number_fuel s : parse_number s <> OutOfFuel.
Proof.
  unfold parse_number. destruct (number_sign s) as [neg s0].
  destruct (number_int s0) as [[ints s1]|]; [|discriminate].
  destruct (number_frac s1) as [[fracs s2]|]; [|discriminate].
  destruct (number_exp s2) as [[ex s3]|]; discriminate.
Qed.

Lemma parse_number_lt s d r :
  parse_number s = Ok d r -> List.length r < List.length s.
Proof.
  unfold parse_number. destruct (number_sign s) as [neg s0] eqn:E0.
  destruct (number_int s0) as [[ints s1]|] eqn:E1; [|discriminate].
  destruct (number_frac s1) as [[fracs s2]|] eqn:E2; [|discriminate].
  destruct (number_exp s2) as [[ex s3]|] eqn:E3; [|discriminate].
  intro H; injection H as _ <-.
  apply number_sign_le in E0. apply number_int_lt in E1.
  apply number_frac_le in E2. apply number_exp_le in E3. lia.
Qed.

#[local] Arguments starts_with : simpl never.
#[local] Arguments skipn : simpl never.

Ltac keyword :=
  let H := fresh in
  intro H; injection H as _ <-; rewrite length_skipn; simpl List.length; lia.

(** What a parser leaves is shorter than what it was given. *)
Lemma parse_consumes fuel :
  (forall s v r, parse_value fuel s = Ok v r -> List.length r < List.length s) /\
  (forall s acc v r,
      parse_elements fuel s acc = Ok v r -> List.length r < List.length s) /\
  (forall s acc v r,
      parse_members fuel s acc = Ok v r -> List.length r < List.length s).
Proof.
  induction fuel as [|f (IHv & IHe & IHm)]; [repeat split; intros; discriminate|].
  repeat split.
  - intros s v r. simpl. pose proof (skip_ws_le s) as Hs.
    destruct (skip_ws s) as [|c s1]; [discriminate|]. simpl in Hs.
    destruct (N.eqb c 123).
    { pose proof (skip_ws_le s1) as Hs1. destruct (skip_ws s1) as [|d s2]; [discriminate|].
      destruct (N.eqb d 125); [intro H; injection H as _ <-; simpl in *; lia|].
      intro H. apply IHm in H. simpl in *. lia. }
    destruct (N.eqb c 91).
    { pose proof (skip_ws_le s1) as Hs1. destruct (skip_ws s1) as [|d s2]; [discriminate|].
      destruct (N.eqb d 93); [intro H; injection H as _ <-; simpl in *; lia|].
      intro H. apply IHe in H. simpl in *. lia. }
    destruct (N.eqb c 34).
    { destruct (parse_string s1) eqn:E; try discriminate.
      apply parse_string_lt in E. intro H; injection H as _ <-. lia. }
    destruct (starts_with _ (c :: s1)); [keyword|].
    destruct (starts_with _ (c :: s1)); [keyword|].
    destruct (starts_with _ (c :: s1)); [keyword|].
    destruct (parse_number (c :: s1)) eqn:E; try discriminate.
    apply parse_number_lt in E. intro H; injection H as _ <-. simpl in *. lia.
  - intros s acc v r. simpl.
    destruct (parse_value f s) as [v1 r1| |] eqn:E; try discriminate.
    apply IHv in E. pose proof (skip_ws_le r1) as Hs.
    destruct (skip_ws r1) as [|c s1]; [discriminate|]. simpl in Hs.
    destruct (N.eqb c 44); [intro H; apply IHe in H; lia|].
    destruct (N.eqb c 93); [|discriminate].
    intro H; injection H as _ <-. lia.
  - intros s acc v r. simpl. pose proof (skip_ws_le s) as Hs.
    destruct (skip_ws s) as [|c s1]; [discriminate|]. simpl in Hs.
    destruct (N.eqb c 34); [|discriminate].
    destruct (parse_string s1) as [k r0| |] eqn:E; try discriminate.
    apply parse_string_lt in E. pose proof (skip_ws_le r0) as Hs0.
    destruct (skip_ws r0) as [|d s2]; [discriminate|]. simpl in Hs0.
    destruct (N.eqb d 58); [|discriminate].
    destruct (parse_value f s2) as [v1 r1| |] eqn:E1; try discriminate.
    apply IHv in E1. pose proof (skip_ws_le r1) as Hs1.
    destruct (skip_ws r1) as [|e s3]; [discriminate|]. simpl in Hs1.
    destruct (N.eqb e 44); [intro H; apply IHm in H; lia|].
    destruct (N.eqb e 125); [|discriminate].
    intro H; injection H as _ <-. lia.
Qed.

(** Twice the length of the text is fuel enough. *)
Lemma parse_fuel fuel :
  (forall s, 2 * List.length s + 1 <= fuel -> parse_value fuel s <> OutOfFuel) /\
  (forall s acc,
      2 * List.length s + 2 <= fuel -> parse_elements fuel s acc <> OutOfFuel) /\
  (forall s acc,
      2 * List.length s + 2 <= fuel -> parse_members fuel s acc <> OutOfFuel).
Proof.
  induction fuel as [|f (IHv & IHe & IHm)]; [repeat split; intros; lia|].
  repeat split.
  - intros s Hf. simpl. pose proof (skip_ws_le s) as Hs.
    destruct (skip_ws s) as [|c s1]; [discriminate|]. simpl in Hs.
    destruct (N.eqb c 123).
    { pose proof (skip_ws_le s1) as Hs1. destruct (skip_ws s1) as [|d s2]; [discriminate|].
      destruct (N.eqb d 125); [discriminate|]. apply IHm. simpl in *. lia. }
    destruct (N.eqb c 91).
    { pose proof (skip_ws_le s1) as Hs1. destruct (skip_ws s1) as [|d s2]; [discriminate|].
      destruct (N.eqb d 93); [discriminate|]. apply IHe. simpl in *. lia. }
    destruct (N.eqb c 34).
    { pose proof (parse_string_fuel s1). destruct (parse_string s1); congruence. }
    destruct (starts_with _ (c :: s1)); [discriminate|].
    destruct (starts_with _ (c :: s1)); [discriminate|].
    destruct (starts_with _ (c :: s1)); [discriminate|].
    pose proof (parse_number_fuel (c :: s1)). destruct (parse_number (c :: s1)); congruence.
  - intros s acc Hf. simpl.
    pose proof (IHv s ltac:(lia)) as Hv.
    destruct (parse_value f s) as [v1 r1| |] eqn:E; [|discriminate|congruence].
    apply (proj1 (parse_consumes f)) in E. pose proof (skip_ws_le r1) as Hs.
    destruct (skip_ws r1) as [|c s1]; [discriminate|]. simpl in Hs.
    destruct (N.eqb c 44); [apply IHe; lia|].
    destruct (N.eqb c 93); discriminate.
  - intros s acc Hf. simpl. pose proof (skip_ws_le s) as Hs.
    destruct (skip_ws s) as [|c s1]; [discriminate|]. simpl in Hs.
    destruct (N.eqb c 34); [|discriminate].
    pose proof (parse_string_fuel s1) as Hk.
    destruct (parse_string s1) as [k r0| |] eqn:E; [|discriminate|congruence].
    apply parse_string_lt in E. pose proof (skip_ws_le r0) as Hs0.
    destruct (skip_ws r0) as [|d s2]; [discriminate|]. simpl in Hs0.
    destruct (N.eqb d 58); [|discriminate].
    pose proof (IHv s2 ltac:(lia)) as Hv.
    destruct (parse_value f s2) as [v1 r1| |] eqn:E1; [|discriminate|congruence].
    apply (proj1 (parse_consumes f)) in E1. pose proof (skip_ws_le r1) as Hs1.
    destruct (skip_ws r1) as [|e s3]; [discriminate|]. simpl in Hs1.
    destruct (N.eqb e 44); [apply IHm; lia|].
    destruct (N.eqb e 125); discriminate.
Qed.

(** [JSON.parse] never runs out of fuel: it throws exactly where the text is
    not one JSON value. *)
Lemma parse_value_fuel s : parse_value (fuel_for s) s <> OutOfFuel.
Proof. apply (proj1 (parse_fuel _)). unfold fuel_for. lia. Qed.

Lemma get_some_truthy f v c : get f v = Some c -> truthy (Some v) = true.
Proof. destruct v; simpl; congruence. Qed.

Lemma nonempty_truthy t : t <> [] -> truthy (Some (JString t)) = true.
Proof. destruct t; simpl; congruence. Qed.

(** The model on texts and numbers whose results are known. *)

Example parse_orders_and_overwrites :
  option_map stringify
    (match parse (jsq " { 'b' : 1 , '10': 2, '2' : [ ] , 'b' : {} , '01': null } ") with
     | Normal v => Some v
     | Throw _ => None
     end)
  = Some (jsq "{'2':[],'10':2,'b':{},'01':null}").
Proof. vm_compute. reflexivity. Qed.

Example parse_numbers :
  option_map stringify
    (match parse (js "[0.1, 2.50, -0, 1e21, 123e-8, 9007199254740993, 5e-324, 1e999]") with
     | Normal v => Some v
     | Throw _ => None
     end)
  = Some (js "[0.1,2.5,0,1e+21,0.00000123,9007199254740992,5e-324,null]").
Proof. vm_compute. reflexivity. Qed.

Example parse_rejects :
  map parse [[]; js "hello"; js "[1,]"; js "01"; js "1."; js "nul"; js "{} x"]
  = repeat (Throw SyntaxError) 7.
Proof. vm_compute. reflexivity. Qed.

End JSONFacts.

(** ** The diagnostic panel *)

Module PanelFacts.
Import JSON TextOutputPanel Examples JSONFacts.

(** C1 (the code departs from the claim).  On the report text made of the
    line [**Category:** Network], the bullet line [Check cable], a blank line
    and [Next], [formatMainContent] gives a header block for Category
    followed by the plain text [ Network], a line break, the styled bullet
    row for [Check cable] and the paragraph break before [Next]; the markup
    holds no callout block.  The header substitution runs first and consumes
    the marker of the Category line, which the callout pattern needs: on the
    same text the callout substitution alone does produce the callout for
    [Network]. *)
Theorem category_report_has_no_callout :
  formatMainContent category_report =
    header_block (js "Category") ++ js " Network<br>"
    ++ bullet_row (js "Check cable") ++ paragraph_break ++ js "Next"
  /\ includes callout_open (formatMainContent category_report) = false
  /\ Regex.replace_all category_re false category_to category_report =
       callout_block (js "Network") ++ [10%N] ++ [bullet] ++ js " Check cable"
       ++ [10%N; 10%N] ++ js "Next".
Proof. repeat split; vm_compute; reflexivity. Qed.

Lemma array_or_empty_is_array v : exists l, array_or_empty v = JArray l.
Proof.
  destruct v as [x|]; simpl; [|eauto].
  destruct x; simpl; eauto.
Qed.

Lemma array_or_empty_not_array v :
  isArray v = false -> array_or_empty v = JArray [].
Proof. destruct v as [x|]; simpl; [|reflexivity]. now intros ->. Qed.

Lemma parseStructured_some raw v c :
  JSON.parse raw = Normal v -> get content v = Some c -> truthy (Some c) = true ->
  parseStructured raw =
    Some {| mainContent := c;
            webSources := array_or_empty (get web_sources v);
            youtubeVideos := array_or_empty (get youtube_videos v);
            structured := true |}.
Proof.
  intros Hp Hc Ht. unfold parseStructured, bind, try_catch.
  rewrite Hp, Hc, (get_some_truthy _ _ _ Hc), Ht. reflexivity.
Qed.

Lemma parseStructured_inv raw p :
  parseStructured raw = Some p ->
  exists v c, JSON.parse raw = Normal v /\ get content v = Some c /\
              truthy (Some c) = true /\
              p = {| mainContent := c;
                     webSources := array_or_empty (get web_sources v);
                     youtubeVideos := array_or_empty (get youtube_videos v);
                     structured := true |}.
Proof.
  unfold parseStructured, bind, try_catch.
  destruct (JSON.parse raw) as [v|e]; [|discriminate].
  destruct (get content v) as [c|] eqn:Hc; [|discriminate].
  destruct (truthy (Some v)); cbn [andb]; [|discriminate].
  destruct (truthy (Some c)) eqn:Ht; [|discriminate].
  intro H; injection H as <-. exists v, c. auto.
Qed.

Lemma legacyParse_lists content :
  webSources (legacyParse content) = JArray [] /\
  youtubeVideos (legacyParse content) = JArray [].
Proof. destruct content; simpl; auto. Qed.

(** C10.  For every text given to the panel, the empty one included, the
    web sources and the videos of the payload are arrays.  Where the text is
    JSON with a truthy [content], a [web_sources] or [youtube_videos] that
    is missing or not an array becomes the empty array and one that is an
    array is kept; where the text is not structured both are empty. *)
Theorem parsed_lists (raw : jsstring) :
  (exists ws ys, webSources (parsed raw) = JArray ws /\
                 youtubeVideos (parsed raw) = JArray ys)
  /\ (forall v c, JSON.parse raw = Normal v -> get content v = Some c ->
                  truthy (Some c) = true ->
        (isArray (get web_sources v) = false -> webSources (parsed raw) = JArray []) /\
        (isArray (get youtube_videos v) = false ->
         youtubeVideos (parsed raw) = JArray []) /\
        (forall l, get web_sources v = Some (JArray l) ->
                   webSources (parsed raw) = JArray l) /\
        (forall l, get youtube_videos v = Some (JArray l) ->
                   youtubeVideos (parsed raw) = JArray l))
  /\ (parseStructured raw = None ->
        webSources (parsed raw) = JArray [] /\ youtubeVideos (parsed raw) = JArray []).
Proof.
  split; [|split].
  - unfold parsed. destruct (parseStructured raw) as [p|] eqn:E.
    + apply parseStructured_inv in E as (v & c & _ & _ & _ & ->). simpl.
      destruct (array_or_empty_is_array (get web_sources v)) as [ws ->].
      destruct (array_or_empty_is_array (get youtube_videos v)) as [ys ->]. eauto.
    + destruct (legacyParse_lists raw) as [-> ->]. eauto.
  - intros v c Hp Hc Ht. unfold parsed.
    rewrite (parseStructured_some _ _ _ Hp Hc Ht). simpl. repeat split.
    + apply array_or_empty_not_array.
    + apply array_or_empty_not_array.
    + now intros l ->.
    + now intros l ->.
  - intro E. unfold parsed. rewrite E. apply legacyParse_lists.
Qed.

Lemma parsed_lists_witness :
  webSources (parsed (jsq "{'content':'X','web_sources':7}")) = JArray []
  /\ youtubeVideos (parsed (jsq "{'content':'X','web_sources':7}")) = JArray []
  /\ webSources (parsed []) = JArray []
  /\ youtubeVideos (parsed []) = JArray [].
Proof.
  pose (v := JObject [(js "content", JString (js "X"));
                      (js "web_sources", JNumber (Num.Fin false 7881299347898368 (-50)))]).
  split; [|split].
  - exact (proj1 (proj1 (proj2 (parsed_lists (jsq "{'content':'X','web_sources':7}")))
                    v (JString (js "X")) eq_refl eq_refl eq_refl) eq_refl).
  - exact (proj1 (proj2 (proj1 (proj2 (parsed_lists (jsq "{'content':'X','web_sources':7}")))
                    v (JString (js "X")) eq_refl eq_refl eq_refl)) eq_refl).
  - exact (proj2 (proj2 (parsed_lists [])) eq_refl).
Defined.

End PanelFacts.

(** ** The local-parse resolver *)

Module ResolverFacts.
Import JSON TextOutputPanel LocalParse Examples.

Lemma filter_all_local l : all_local l = true -> filter from_assistant l = [].
Proof.
  induction l as [|x l IH]; simpl; [reflexivity|].
  intro H. apply andb_true_iff in H as [Hx Hl].
  apply negb_true_iff in Hx. rewrite Hx. auto.
Qed.

(** The resolver reads the last message that is not the user's own. *)
Lemma getLatestTextContent_last before m later raw :
  from_assistant m = true -> message m = JString raw -> all_local later = true ->
  getLatestTextContent (before ++ m :: later) = resolve raw.
Proof.
  intros Hm Hraw Hlater. unfold getLatestTextContent.
  rewrite filter_app. simpl. rewrite Hm, (filter_all_local _ Hlater).
  rewrite rev_app_distr. simpl. rewrite Hraw. reflexivity.
Qed.

(** C6.  Where the last assistant message of the list is the text
    [report_message], a [diagnostic_report] with the content X and one web
    source of title T and url U, whatever comes before it and whatever the
    user sent after it, the resolver followed by the panel gives the main
    content X and the one-element list of web sources with title T and
    url U. *)
Theorem report_message_resolved (before later : list ChatMessage) (m : ChatMessage) :
  from_assistant m = true -> message m = JString report_message ->
  all_local later = true ->
  exists p, Rendered.local_parse (before ++ m :: later) = Normal p
            /\ mainContent p = JString (js "X")
            /\ webSources p =
                 JArray [JObject [(js "title", JString (js "T"));
                                  (js "url", JString (js "U"))]].
Proof.
  intros Hm Hraw Hlater. unfold Rendered.local_parse.
  rewrite (getLatestTextContent_last _ _ _ _ Hm Hraw Hlater).
  eexists. split; [vm_compute; reflexivity|]. split; reflexivity.
Qed.

Lemma report_message_resolved_witness :
  exists p, Rendered.local_parse [assistant report_message] = Normal p
            /\ mainContent p = JString (js "X")
            /\ webSources p =
                 JArray [JObject [(js "title", JString (js "T"));
                                  (js "url", JString (js "U"))]].
Proof.
  exact (report_message_resolved [] [] (assistant report_message)
           eq_refl eq_refl eq_refl).
Defined.



(** Where the text is not JSON and the VOICE pattern does not match it, the
    resolver returns the empty string. *)
Lemma resolve_unmatched raw e :
  JSON.parse raw = Throw e -> Regex.match_ voiceText_re false raw = None ->
  resolve raw = Normal [].
Proof.
  intros Hp Hm. unfold resolve, or_continue, bind, try_catch. now rewrite Hp, Hm.
Qed.

(** Whenever the resolver returns the empty string the panel shows an empty
    main content: it keeps nothing of what it showed before. *)
Lemma empty_text_clears messages :
  getLatestTextContent messages = Normal [] ->
  exists p, Rendered.local_parse messages = Normal p /\ mainContent p = JString [].
Proof.
  intro H. unfold Rendered.local_parse. rewrite H. eexists. split; reflexivity.
Qed.

(** C2 (the code departs from the claim).  After the assistant message
    [report_only], a [diagnostic_report] with the content X, the panel shows
    the main content X; when the assistant message hello, which no parse
    rule accepts, follows it, the resolver returns the empty string and the
    panel, which is rendered from that string alone, shows an empty main
    content: the last good value is not kept. *)
Theorem unparsed_message_clears_panel :
  (exists p, Rendered.local_parse [assistant report_only] = Normal p
             /\ mainContent p = JString (js "X"))
  /\ getLatestTextContent [assistant report_only; assistant (js "hello")] = Normal []
  /\ (exists p, Rendered.local_parse [assistant report_only; assistant (js "hello")]
                = Normal p
                /\ mainContent p = JString []).
Proof.
  repeat split.
  - eexists. split; vm_compute; reflexivity.
  - eexists. split; vm_compute; reflexivity.
Qed.

End ResolverFacts.

(** ** The display-text extractor *)

Module ExtractorFacts.
Import JSON Examples JSONFacts.

Lemma remote_display_returns_voice s parsed t :
  JSON.parse s = Normal parsed -> get voice_output parsed = Some (JString t) ->
  t <> [] -> SessionView.display s = Normal (JString t).
Proof.
  intros Hp Hg Ht. unfold SessionView.display, or_continue, bind, try_catch.
  rewrite Hp, Hg, (get_some_truthy _ _ _ Hg), (nonempty_truthy _ Ht). reflexivity.
Qed.

Lemma local_display_returns_voice s parsed t :
  JSON.parse s = Normal parsed -> get voice_output parsed = Some (JString t) ->
  t <> [] -> LocalParse.display s = Normal (JString t).
Proof.
  intros Hp Hg Ht. unfold LocalParse.display, or_continue, bind, try_catch.
  rewrite Hp, Hg, (get_some_truthy _ _ _ Hg), (nonempty_truthy _ Ht). reflexivity.
Qed.

(** C5, amended.  For every string that is valid JSON with a non-empty string
    as its [voice_output], the extractor of either variant returns exactly
    that string. *)
Theorem display_voice_output (s : jsstring) (parsed : json) (t : jsstring) :
  JSON.parse s = Normal parsed ->
  get voice_output parsed = Some (JString t) ->
  t <> [] ->
  SessionView.display s = Normal (JString t)
  /\ LocalParse.display s = Normal (JString t).
Proof.
  intros Hp Hg Ht. split;
    [eapply remote_display_returns_voice | eapply local_display_returns_voice]; eauto.
Qed.

Lemma display_voice_output_witness :
  SessionView.display some_voice_output = Normal (JString (js "Hello"))
  /\ LocalParse.display some_voice_output = Normal (JString (js "Hello")).
Proof.
  refine (display_voice_output some_voice_output
            (JObject [(js "voice_output", JString (js "Hello"))]) (js "Hello")
            eq_refl eq_refl _).
  discriminate.
Defined.

(** C5 as stated fails: the text [empty_voice_output] is valid JSON with a
    string [voice_output], the empty one, and the extractor returns the whole
    text, not that string. *)
Lemma empty_voice_output_shown_raw :
  JSON.parse empty_voice_output = Normal (JObject [(js "voice_output", JString [])])
  /\ get voice_output (JObject [(js "voice_output", JString [])]) = Some (JString [])
  /\ SessionView.display empty_voice_output = Normal (JString empty_voice_output)
  /\ LocalParse.display empty_voice_output = Normal (JString empty_voice_output)
  /\ ~ (forall s parsed t,
          JSON.parse s = Normal parsed ->
          get voice_output parsed = Some (JString t) ->
          SessionView.display s = Normal (JString t))
  /\ ~ (forall s parsed t,
          JSON.parse s = Normal parsed ->
          get voice_output parsed = Some (JString t) ->
          LocalParse.display s = Normal (JString t)).
Proof.
  assert (JSON.parse empty_voice_output
          = Normal (JObject [(js "voice_output", JString [])])) as Hp
      by (vm_compute; reflexivity).
  assert (SessionView.display empty_voice_output
          = Normal (JString empty_voice_output)) as Hr
      by (vm_compute; reflexivity).
  assert (LocalParse.display empty_voice_output
          = Normal (JString empty_voice_output)) as Hl
      by (vm_compute; reflexivity).
  split; [exact Hp|]. split; [reflexivity|]. split; [exact Hr|]. split; [exact Hl|].
  split; intro H; specialize (H _ _ [] Hp eq_refl).
  - rewrite Hr in H. discriminate H.
  - rewrite Hl in H. discriminate H.
Qed.

Lemma remote_display_total s : exists v, SessionView.display s = Normal v.
Proof.
  unfold SessionView.display, or_continue, bind, try_catch.
  destruct (JSON.parse s) as [p|e].
  - destruct (truthy (Some p) && truthy (get voice_output p)).
    + destruct (get voice_output p); [eauto|].
      destruct (Regex.match_ _ _ _); eauto.
    + destruct (Regex.match_ _ _ _); eauto.
  - destruct (Regex.match_ _ _ _); eauto.
Qed.

Lemma local_display_total s : exists v, LocalParse.display s = Normal v.
Proof.
  unfold LocalParse.display, or_continue, bind, try_catch.
  destruct (JSON.parse s) as [p|e].
  - destruct (truthy (Some p) && truthy (get voice_output p)).
    + destruct (get voice_output p); [eauto|].
      destruct (Regex.match_ _ _ _); eauto.
    + destruct (Regex.match_ _ _ _); eauto.
  - destruct (Regex.match_ _ _ _); eauto.
Qed.

(** C8.  For every string that [JSON.parse] rejects and that the
    VOICE:...|||TEXT:... pattern (the two variants have the same one) does
    not match, the extractor of either variant returns the string unchanged;
    and on no string at all does the extractor throw. *)
Theorem display_identity (s : jsstring) (e : error) :
  JSON.parse s = Throw e ->
  Regex.match_ SessionView.voice_re false s = None ->
  SessionView.display s = Normal (JString s)
  /\ LocalParse.display s = Normal (JString s)
  /\ (forall raw, exists v, SessionView.display raw = Normal v)
  /\ (forall raw, exists v, LocalParse.display raw = Normal v).
Proof.
  intros Hp Hm. repeat split.
  - unfold SessionView.display, or_continue, bind, try_catch. now rewrite Hp, Hm.
  - change SessionView.voice_re with LocalParse.voice_re in Hm.
    unfold LocalParse.display, or_continue, bind, try_catch. now rewrite Hp, Hm.
  - apply remote_display_total.
  - apply local_display_total.
Qed.

Lemma display_identity_witness :
  SessionView.display (js "hello there") = Normal (JString (js "hello there"))
  /\ LocalParse.display (js "hello there") = Normal (JString (js "hello there")).
Proof.
  exact (conj (proj1 (display_identity (js "hello there") SyntaxError eq_refl eq_refl))
              (proj1 (proj2 (display_identity (js "hello there") SyntaxError
                               eq_refl eq_refl)))).
Defined.

End ExtractorFacts.

(** ** The two fetches *)

Module FetchFacts.
Import JSON.

(** C9.  Whatever makes the request fail - the rejection of the fetch, a
    status outside 200-299, a body that cannot be read or is not JSON - the
    operation throws an error whose message is the fixed generic text; that
    error is the same for every cause and carries nothing of it.  On a status
    in 200-299 it returns the JSON value the body parses to. *)
Theorem fetchConnectionDetails_generic_error (fetched : completion Http.Response) :
  (forall cause, UseConnectionDetails.request fetched = Throw cause ->
     UseConnectionDetails.fetchConnectionDetails fetched
     = Throw (Error UseConnectionDetails.generic_message))
  /\ (forall cause, fetched = Throw cause ->
        UseConnectionDetails.fetchConnectionDetails fetched
        = Throw (Error UseConnectionDetails.generic_message))
  /\ (forall res, fetched = Normal res -> Http.ok res = false ->
        UseConnectionDetails.fetchConnectionDetails fetched
        = Throw (Error UseConnectionDetails.generic_message))
  /\ (forall res v, fetched = Normal res -> Http.ok res = true ->
        Http.json res = Normal v ->
        UseConnectionDetails.fetchConnectionDetails fetched = Normal v).
Proof.
  unfold UseConnectionDetails.fetchConnectionDetails, UseConnectionDetails.request,
    try_catch, bind.
  repeat split.
  - intros cause H. now rewrite H.
  - now intros cause ->.
  - intros res -> Hok. rewrite Hok. simpl. unfold Http.text.
    destruct (Http.body res); reflexivity.
  - intros res v -> Hok Hj. rewrite Hok. simpl. now rewrite Hj.
Qed.

Lemma fetchConnectionDetails_generic_error_witness :
  UseConnectionDetails.fetchConnectionDetails (Throw TypeError)
  = Throw (Error UseConnectionDetails.generic_message)
  /\ UseConnectionDetails.fetchConnectionDetails
       (Normal {| Http.status := 500; Http.body := Normal (js "database is down") |})
     = Throw (Error UseConnectionDetails.generic_message)
  /\ UseConnectionDetails.fetchConnectionDetails
       (Normal {| Http.status := 200; Http.body := Normal (js "[true]") |})
     = Normal (JArray [JBool true]).
Proof.
  split; [|split].
  - exact (proj1 (proj2 (fetchConnectionDetails_generic_error (Throw TypeError)))
             TypeError eq_refl).
  - exact (proj1 (proj2 (proj2 (fetchConnectionDetails_generic_error _)))
             {| Http.status := 500; Http.body := Normal (js "database is down") |}
             eq_refl eq_refl).
  - exact (proj2 (proj2 (proj2 (fetchConnectionDetails_generic_error _)))
             {| Http.status := 200; Http.body := Normal (js "[true]") |}
             (JArray [JBool true]) eq_refl eq_refl eq_refl).
Defined.



End FetchFacts.

(** ** The lifecycle guard *)

Module GuardFacts.
Import SessionView.













End GuardFacts.
